(** * Elevator controller (elevator_hls.h, elevator_hls.cpp)

    A shallow embedding of the HLS elevator controller: the five function-local
    static variables become a record that is passed in and out of every
    invocation, the four reference parameters become a record of output ports,
    and the fixed-width [ap_uint]/[ap_int] values are integers whose wrap-around
    is written out where the source can wrap. *)

From Stdlib Require Import ZArith Bool List Lia.
Import ListNotations.
Local Open Scope Z_scope.

(** ** Fixed-width integers of [ap_int.h] *)

Module ApInt.

(** [ap_uint<w>]: a converted or computed value keeps its low [w] bits. *)
Definition ap_uint (w : Z) (z : Z) : Z := z mod 2 ^ w.

(** [ap_int<w>]: two's complement on [w] bits. *)
Definition ap_int (w : Z) (z : Z) : Z :=
  (z + 2 ^ (w - 1)) mod 2 ^ w - 2 ^ (w - 1).

End ApInt.

(** ** elevator_hls.h *)

(** [typedef ap_uint<4> floor_t], [ap_uint<2> state_t], [ap_int<2> direction_t]. *)
Definition floor_t := Z.
Definition state_t := Z.
Definition direction_t := Z.

Definition to_floor (z : Z) : floor_t := ApInt.ap_uint 4 z.
Definition to_state (z : Z) : state_t := ApInt.ap_uint 2 z.
Definition to_direction (z : Z) : direction_t := ApInt.ap_int 2 z.

Definition STATE_IDLE : state_t := Eval cbv in to_state 0.
Definition STATE_MOVING : state_t := Eval cbv in to_state 1.
Definition STATE_DOOR_OPEN : state_t := Eval cbv in to_state 2.

Definition DIR_DOWN : direction_t := Eval cbv in to_direction (-1).
Definition DIR_IDLE : direction_t := Eval cbv in to_direction 0.
Definition DIR_UP : direction_t := Eval cbv in to_direction 1.

Record request_t : Type := mk_request_t {
  floor : floor_t;
  valid : bool
}.

(** What a driver does when it writes [input_request.floor = z;
    input_request.valid = v;]: the integer is converted to [floor_t]. *)
Definition make_request (z : Z) (v : bool) : request_t :=
  {| floor := to_floor z; valid := v |}.

(** ** elevator_hls.cpp *)

(** The static variables of [elevator_controller]. *)
Record ctrl : Type := mk_ctrl {
  elevator_floor : floor_t;
  elevator_state : state_t;
  elevator_direction : direction_t;
  target_floor : floor_t;
  has_target : bool
}.

(** The reference parameters written by [elevator_controller]. *)
Record ports : Type := mk_ports {
  current_floor : floor_t;
  current_state : state_t;
  current_direction : direction_t;
  request_accepted : bool
}.

(** The initialisers of the static variables. *)
Definition initial : ctrl :=
  {| elevator_floor := 1;
     elevator_state := STATE_IDLE;
     elevator_direction := DIR_IDLE;
     target_floor := 0;
     has_target := false |}.

(** Assignments to one static variable. *)
Definition set_floor (v : floor_t) (s : ctrl) : ctrl :=
  mk_ctrl v (elevator_state s) (elevator_direction s) (target_floor s) (has_target s).
Definition set_state (v : state_t) (s : ctrl) : ctrl :=
  mk_ctrl (elevator_floor s) v (elevator_direction s) (target_floor s) (has_target s).
Definition set_direction (v : direction_t) (s : ctrl) : ctrl :=
  mk_ctrl (elevator_floor s) (elevator_state s) v (target_floor s) (has_target s).
Definition set_target_floor (v : floor_t) (s : ctrl) : ctrl :=
  mk_ctrl (elevator_floor s) (elevator_state s) (elevator_direction s) v (has_target s).
Definition set_has_target (v : bool) (s : ctrl) : ctrl :=
  mk_ctrl (elevator_floor s) (elevator_state s) (elevator_direction s) (target_floor s) v.

(** The [if (reset)] branch: every static variable is overwritten and
    [request_accepted] is [false]. *)
Definition reset_path (s : ctrl) : ctrl * bool :=
  let s := set_floor 1 s in
  let s := set_state STATE_IDLE s in
  let s := set_direction DIR_IDLE s in
  let s := set_target_floor 0 s in
  let s := set_has_target false s in
  (s, false).

(** "Process new request only if idle and no current target": the first
    statement of the [else] branch.  It yields the statics and the value
    written to [request_accepted]. *)
Definition accept_request (input_request : request_t) (s : ctrl) : ctrl * bool :=
  if valid input_request && negb (has_target s) && (elevator_state s =? STATE_IDLE) then
    if (floor input_request >? 0) && (floor input_request <=? 15)
       && negb (floor input_request =? elevator_floor s) then
      let s := set_target_floor (floor input_request) s in
      let s := set_has_target true s in
      let s := if target_floor s >? elevator_floor s
               then set_direction DIR_UP s
               else set_direction DIR_DOWN s in
      let s := set_state STATE_MOVING s in
      (s, true)
    else (s, false)
  else (s, false).

(** "Move elevator if we have a target": the second statement of the [else]
    branch.  [elevator_floor++] and [elevator_floor--] are 4-bit operations. *)
Definition move_elevator (s : ctrl) : ctrl :=
  if has_target s && (elevator_state s =? STATE_MOVING) then
    let s :=
      if elevator_floor s <? target_floor s then
        set_direction DIR_UP (set_floor (to_floor (elevator_floor s + 1)) s)
      else if elevator_floor s >? target_floor s then
        set_direction DIR_DOWN (set_floor (to_floor (elevator_floor s - 1)) s)
      else s in
    if elevator_floor s =? target_floor s then
      set_has_target false (set_direction DIR_IDLE (set_state STATE_DOOR_OPEN s))
    else s
  else if elevator_state s =? STATE_DOOR_OPEN then
    set_state STATE_IDLE s
  else s.

(** "Update output ports". *)
Definition update_ports (s : ctrl) (accepted : bool) : ports :=
  {| current_floor := elevator_floor s;
     current_state := elevator_state s;
     current_direction := elevator_direction s;
     request_accepted := accepted |}.

(** One invocation: the statics before the call, the two inputs; the statics
    after the call and the output ports. *)
Definition elevator_controller (s : ctrl) (input_request : request_t) (reset : bool)
  : ctrl * ports :=
  let '(s, accepted) :=
    if reset then reset_path s
    else
      let '(s, accepted) := accept_request input_request s in
      (move_elevator s, accepted) in
  (s, update_ports s accepted).

(** The statics after an invocation, and the ports it drives. *)
Definition next (s : ctrl) (r : request_t) (reset : bool) : ctrl :=
  fst (elevator_controller s r reset).
Definition outputs (s : ctrl) (r : request_t) (reset : bool) : ports :=
  snd (elevator_controller s r reset).

(** The states the controller can be in between two invocations. *)
Inductive reachable : ctrl -> Prop :=
| reach_initial : reachable initial
| reach_next s r reset : reachable s -> reachable (next s r reset).

(** Consecutive invocations with [reset] low, one request per cycle. *)
Definition run (s : ctrl) (rs : list request_t) : ctrl :=
  fold_left (fun s r => next s r false) rs s.

(** Distance of the car to the floor in [target_floor]. *)
Definition distance (s : ctrl) : Z := Z.abs (elevator_floor s - target_floor s).

(** ** Properties of a state between two invocations *)

(** The car is at one of the floors that can be requested. *)
Definition floor_in_range (s : ctrl) : Prop := 1 <= elevator_floor s <= 15.

(** [direction] is idle whenever the car is not moving. *)
Definition idle_unless_moving (s : ctrl) : Prop :=
  elevator_state s <> STATE_MOVING -> elevator_direction s = DIR_IDLE.

(** A target is held exactly in the moving state. *)
Definition target_iff_moving (s : ctrl) : Prop :=
  has_target s = true <-> elevator_state s = STATE_MOVING.

(** A held target is a requestable floor other than the car's. *)
Definition target_ahead (s : ctrl) : Prop :=
  has_target s = true ->
  1 <= target_floor s <= 15 /\ target_floor s <> elevator_floor s.

(** The state is one of the three named ones. *)
Definition state_named (s : ctrl) : Prop :=
  elevator_state s = STATE_IDLE \/ elevator_state s = STATE_MOVING
  \/ elevator_state s = STATE_DOOR_OPEN.

(** What holds of every state between two invocations. *)
Definition consistent (s : ctrl) : Prop :=
  floor_in_range s /\ state_named s /\ target_iff_moving s
  /\ target_ahead s /\ idle_unless_moving s.

(** The requests of the test bench, and the state in which the car is on its
    way from floor 1 to floor 3. *)
Definition no_request : request_t := make_request 0 false.
Definition request_3 : request_t := make_request 3 true.
Definition request_5 : request_t := make_request 5 true.
Definition on_the_way : ctrl := next initial request_3 false.

(** While the car is moving, [direction] points from the car to the target. *)
Definition heading (s : ctrl) : Prop :=
  elevator_state s = STATE_MOVING ->
  (elevator_direction s = DIR_UP /\ elevator_floor s < target_floor s)
  \/ (elevator_direction s = DIR_DOWN /\ elevator_floor s > target_floor s).

(** Invocations without reset after which the controller is idle again:
    the floors still to go and one cycle for the door while moving, one cycle
    while the door is open, none when idle. *)
Definition cycles_to_idle (s : ctrl) : Z :=
  if elevator_state s =? STATE_MOVING then distance s + 1
  else if elevator_state s =? STATE_DOOR_OPEN then 1
  else 0.

(** ** elevator_hls_tb.cpp *)

(** The loop of the movement test: up to [cycles] invocations with the same
    inputs, left by [break] as soon as the ports show floor [t] and the idle
    state.  The test bench runs it with [t = 3] and [cycles = 5]. *)
Fixpoint await_floor (t : floor_t) (cycles : nat) (input_request : request_t)
    (reset : bool) (s : ctrl) (o : ports) : ctrl * ports :=
  match cycles with
  | O => (s, o)
  | S cycles =>
      let '(s, o) := elevator_controller s input_request reset in
      if (current_floor o =? t) && (current_state o =? STATE_IDLE) then (s, o)
      else await_floor t cycles input_request reset s o
  end.

(** [main] without the text it prints: the five tests in order, on the
    statics as the program starts with them.  [o] stands for the port
    variables, which [main] declares without a value.  The result is
    [pass_count], [test_count] and the exit code. *)
Definition tb_main (o : ports) : Z * Z * Z :=
  let s := initial in
  let test_count := 0 in
  let pass_count := 0 in
  (* Test 1: Reset *)
  let reset := true in
  let input_request := {| floor := to_floor 0; valid := false |} in
  let '(s, o) := elevator_controller s input_request reset in
  let pass_count :=
    if (current_floor o =? 1) && (current_state o =? STATE_IDLE)
       && (current_direction o =? DIR_IDLE)
    then pass_count + 1 else pass_count in
  let test_count := test_count + 1 in
  (* Test 2: Request floor 3 *)
  let reset := false in
  let input_request := {| floor := to_floor 3; valid := true |} in
  let '(s, o) := elevator_controller s input_request reset in
  let pass_count :=
    if request_accepted o && (current_state o =? STATE_MOVING)
       && (current_direction o =? DIR_UP)
    then pass_count + 1 else pass_count in
  let test_count := test_count + 1 in
  (* Test 3: Movement simulation *)
  let input_request := {| floor := floor input_request; valid := false |} in
  let '(s, o) := await_floor 3 5 input_request reset s o in
  let pass_count :=
    if (current_floor o =? 3) && (current_state o =? STATE_IDLE)
    then pass_count + 1 else pass_count in
  let test_count := test_count + 1 in
  (* Test 4: Request floor 1 (downward) *)
  let input_request := {| floor := to_floor 1; valid := true |} in
  let '(s, o) := elevator_controller s input_request reset in
  let pass_count :=
    if request_accepted o && (current_direction o =? DIR_DOWN)
    then pass_count + 1 else pass_count in
  let test_count := test_count + 1 in
  (* Test 5: Invalid request (floor 0) *)
  let reset := true in
  let '(s, o) := elevator_controller s input_request reset in
  let reset := false in
  let input_request := {| floor := to_floor 0; valid := true |} in
  let '(s, o) := elevator_controller s input_request reset in
  let pass_count := if negb (request_accepted o) then pass_count + 1 else pass_count in
  let test_count := test_count + 1 in
  (pass_count, test_count, if pass_count =? test_count then 0 else 1).

(** ** Proof automation *)

(** Unfolds one invocation down to comparisons on the fields. *)
Ltac unfold_controller :=
  unfold next, outputs, run, distance, elevator_controller, reset_path,
    accept_request, move_elevator, update_ports, set_floor, set_state,
    set_direction, set_target_floor, set_has_target, consistent,
    floor_in_range, state_named, target_iff_moving, target_ahead,
    idle_unless_moving, initial, make_request, to_floor, ApInt.ap_uint,
    STATE_IDLE, STATE_MOVING, STATE_DOOR_OPEN, DIR_DOWN, DIR_IDLE, DIR_UP in *;
  change (2 ^ 4) with 16 in *;
  cbn [fst snd floor valid elevator_floor elevator_state elevator_direction
       target_floor has_target current_floor current_state current_direction
       request_accepted andb negb] in *.

(** Splits on a test that the goal still branches on, comparisons of the
    fields before the equality tests that follow them in the source. *)
Ltac split_test :=
  match goal with
  | |- context [?a >? ?b] => rewrite (Z.gtb_ltb a b)
  | |- context [?a <? ?b] => destruct (Z.ltb_spec a b)
  | |- context [?a <=? ?b] => destruct (Z.leb_spec a b)
  | |- context [?a =? ?b] => destruct (Z.eqb_spec a b)
  | |- context [if ?b then _ else _] => destruct b eqn:?
  end;
  cbn [fst snd floor valid elevator_floor elevator_state elevator_direction
       target_floor has_target current_floor current_state current_direction
       request_accepted andb negb] in *.

(** Closes a goal about fields by linear arithmetic, wrap-around included. *)
Ltac close_fields :=
  try congruence;
  try Z.div_mod_to_equations;
  repeat split; intros;
  first [ lia | congruence | intuition (try congruence; lia) | idtac ].

Ltac controller_cases := unfold_controller; repeat split_test; close_fields.

(** ** The test bench's scenario

    Reset, then a request for floor 3, then cycles without a request. *)
Example tb_reset :
  outputs initial no_request true = mk_ports 1 STATE_IDLE DIR_IDLE false.
Proof. reflexivity. Qed.

Example tb_request_3 :
  outputs initial request_3 false = mk_ports 2 STATE_MOVING DIR_UP true.
Proof. reflexivity. Qed.

Example tb_movement :
  let s1 := next initial request_3 false in
  let s2 := next s1 no_request false in
  let s3 := next s2 no_request false in
  update_ports s2 false = mk_ports 3 STATE_DOOR_OPEN DIR_IDLE false
  /\ update_ports s3 false = mk_ports 3 STATE_IDLE DIR_IDLE false.
Proof. split; reflexivity. Qed.

(** From floor 3 a request for floor 1 is accepted and the car goes down; after
    a reset a request for floor 0 is rejected. *)
Example tb_downward :
  let s := run initial [request_3; no_request; no_request] in
  update_ports s false = mk_ports 3 STATE_IDLE DIR_IDLE false
  /\ outputs s (make_request 1 true) false = mk_ports 2 STATE_MOVING DIR_DOWN true.
Proof. split; reflexivity. Qed.

Example tb_floor_0 :
  elevator_controller (next on_the_way no_request true) (make_request 0 true) false
  = (initial, mk_ports 1 STATE_IDLE DIR_IDLE false).
Proof. reflexivity. Qed.

(** ** One invocation preserves consistency *)

Lemma consistent_initial : consistent initial.
Proof. controller_cases. Qed.

Lemma consistent_reset (s : ctrl) : consistent (fst (reset_path s)).
Proof. controller_cases. Qed.

Lemma consistent_accept (r : request_t) (s : ctrl) :
  consistent s -> consistent (fst (accept_request r s)).
Proof.
  destruct s as [f st d t [|]], r as [rf [|]].
  all: unfold_controller; intros (Hf & Hst & Hth & Hta & Hd).
  all: repeat split_test; close_fields.
Qed.

Lemma consistent_move (s : ctrl) : consistent s -> consistent (move_elevator s).
Proof.
  destruct s as [f st d t [|]].
  all: unfold_controller; intros (Hf & Hst & Hth & Hta & Hd).
  all: repeat split_test; close_fields.
Qed.

Lemma next_phases (s : ctrl) (r : request_t) :
  next s r false = move_elevator (fst (accept_request r s)).
Proof. unfold next, elevator_controller. now destruct (accept_request r s). Qed.

Lemma next_reset (s : ctrl) (r : request_t) : next s r true = fst (reset_path s).
Proof. reflexivity. Qed.

Lemma consistent_next (s : ctrl) (r : request_t) (reset : bool) :
  consistent s -> consistent (next s r reset).
Proof.
  intros H. destruct reset.
  - rewrite next_reset. apply consistent_reset.
  - rewrite next_phases. now apply consistent_move, consistent_accept.
Qed.

Lemma reachable_consistent (s : ctrl) : reachable s -> consistent s.
Proof.
  induction 1 as [|s r reset _ IH].
  - exact consistent_initial.
  - now apply consistent_next.
Qed.

(** ** The ports mirror the statics *)

Lemma outputs_next (s : ctrl) (r : request_t) (reset : bool) :
  current_floor (outputs s r reset) = elevator_floor (next s r reset)
  /\ current_state (outputs s r reset) = elevator_state (next s r reset)
  /\ current_direction (outputs s r reset) = elevator_direction (next s r reset).
Proof.
  unfold outputs, next, elevator_controller.
  destruct reset; [|destruct (accept_request r s)]; repeat split.
Qed.

Lemma outputs_accepted (s : ctrl) (r : request_t) :
  request_accepted (outputs s r false) = snd (accept_request r s).
Proof.
  unfold outputs, elevator_controller. now destruct (accept_request r s).
Qed.

(** ** The request-acceptance path *)

(** The five conditions under which a request is taken. *)
Lemma accept_request_iff (r : request_t) (s : ctrl) :
  snd (accept_request r s) = true <->
  valid r = true /\ has_target s = false /\ elevator_state s = STATE_IDLE
  /\ 1 <= floor r <= 15 /\ floor r <> elevator_floor s.
Proof.
  destruct s as [f st d t [|]], r as [rf [|]].
  all: unfold_controller; repeat split_test; close_fields.
Qed.

Lemma accept_request_rejected (r : request_t) (s : ctrl) :
  snd (accept_request r s) = false -> fst (accept_request r s) = s.
Proof.
  unfold accept_request.
  destruct (valid r && negb (has_target s) && (elevator_state s =? STATE_IDLE));
    [|reflexivity].
  destruct ((floor r >? 0) && (floor r <=? 15) && negb (floor r =? elevator_floor s));
    [discriminate|reflexivity].
Qed.

Lemma accept_request_taken (r : request_t) (s : ctrl) :
  snd (accept_request r s) = true ->
  fst (accept_request r s) =
  mk_ctrl (elevator_floor s) STATE_MOVING
    (if floor r >? elevator_floor s then DIR_UP else DIR_DOWN) (floor r) true.
Proof.
  unfold accept_request.
  destruct (valid r && negb (has_target s) && (elevator_state s =? STATE_IDLE));
    [|discriminate].
  destruct ((floor r >? 0) && (floor r <=? 15) && negb (floor r =? elevator_floor s));
    [|discriminate].
  intros _. cbn. now destruct (floor r >? elevator_floor s).
Qed.

(** Outside the moving and door-open states the second statement of the
    [else] branch changes nothing; inside them it changes something. *)
Lemma move_elevator_fixed (s : ctrl) :
  move_elevator s = s <->
  ~ (has_target s = true /\ elevator_state s = STATE_MOVING)
  /\ elevator_state s <> STATE_DOOR_OPEN.
Proof.
  destruct s as [f st d t [|]].
  all: unfold_controller; repeat split_test; split.
  all: try (intros [=]); try (intros [? ?]); try reflexivity.
  all: try congruence; try tauto; Z.div_mod_to_equations; lia.
Qed.

(** ** Claims about one invocation *)

(** C1.  In a cycle without reset the request is accepted exactly when it is
    valid, no target is held, the state is idle, the floor is between 1 and 15
    and differs from the car's floor.  The acceptance path then stores the
    floor as target, sets the direction up when the target is above the car and
    down otherwise, and enters the moving state; the movement path of the same
    invocation runs on that state.  A request made while the state is not idle
    is rejected and leaves no trace: the acceptance path changes nothing and
    the state after the invocation is the same for every other request.  When
    the accepted floor is more than one floor away from a car on a 4-bit floor,
    target, moving state and direction are still there after the invocation. *)
Theorem request_accepted_iff (s : ctrl) (r : request_t) :
  let s1 := fst (accept_request r s) in
  next s r false = move_elevator s1
  /\ (request_accepted (outputs s r false) = true <->
      valid r = true /\ has_target s = false /\ elevator_state s = STATE_IDLE
      /\ 1 <= floor r <= 15 /\ floor r <> elevator_floor s)
  /\ (request_accepted (outputs s r false) = true ->
      has_target s1 = true /\ target_floor s1 = floor r
      /\ (target_floor s1 > elevator_floor s -> elevator_direction s1 = DIR_UP)
      /\ (target_floor s1 <= elevator_floor s -> elevator_direction s1 = DIR_DOWN)
      /\ elevator_state s1 = STATE_MOVING
      /\ elevator_floor s1 = elevator_floor s)
  /\ (elevator_state s <> STATE_IDLE ->
      request_accepted (outputs s r false) = false /\ s1 = s
      /\ forall r', next s r' false = next s r false)
  /\ (request_accepted (outputs s r false) = true ->
      0 <= elevator_floor s <= 15 -> Z.abs (floor r - elevator_floor s) <> 1 ->
      has_target (next s r false) = true
      /\ target_floor (next s r false) = floor r
      /\ elevator_state (next s r false) = STATE_MOVING
      /\ (floor r > elevator_floor s -> elevator_direction (next s r false) = DIR_UP)
      /\ (floor r < elevator_floor s ->
          elevator_direction (next s r false) = DIR_DOWN)).
Proof.
  cbv zeta. rewrite outputs_accepted. split; [apply next_phases|].
  split; [apply accept_request_iff|]. split; [|split].
  3: { intros Hacc Hf Hfar.
       rewrite next_phases, (accept_request_taken _ _ Hacc).
       apply accept_request_iff in Hacc. destruct Hacc as (_ & _ & _ & Hr & Hne).
       destruct s as [f st d t h], r as [rf rv].
       unfold_controller. repeat split_test; close_fields. }
  - intros H. rewrite (accept_request_taken _ _ H). cbn.
    rewrite Z.gtb_ltb. destruct (Z.ltb_spec (elevator_floor s) (floor r));
      repeat split; intros; try reflexivity; lia.
  - intros Hst.
    assert (Hrej : forall q, snd (accept_request q s) = false).
    { intros q. destruct (snd (accept_request q s)) eqn:E; [|reflexivity].
      apply accept_request_iff in E. tauto. }
    split; [apply Hrej|]. split; [apply accept_request_rejected, Hrej|].
    intros r'. rewrite !next_phases.
    now rewrite !accept_request_rejected by apply Hrej.
Qed.

Lemma request_accepted_iff_witness :
  request_accepted (outputs initial request_3 false) = true
  /\ elevator_state (fst (accept_request request_3 initial)) = STATE_MOVING
  /\ elevator_direction (fst (accept_request request_3 initial)) = DIR_UP
  /\ request_accepted (outputs on_the_way request_5 false) = false.
Proof.
  destruct (request_accepted_iff initial request_3) as (_ & Hiff & Htaken & _).
  destruct (request_accepted_iff on_the_way request_5) as (_ & _ & _ & Hbusy & _).
  assert (Hacc : request_accepted (outputs initial request_3 false) = true).
  { apply Hiff. cbv. repeat split; discriminate. }
  destruct (Htaken Hacc) as (_ & _ & Hup & _ & Hmov & _).
  split; [exact Hacc|]. split; [exact Hmov|].
  split; [apply Hup; reflexivity|].
  apply Hbusy. discriminate.
Defined.

(** C2.  With reset asserted, whatever the state and the request, the
    invocation leaves floor 1, the idle state, the idle direction and no
    target, and drives [request_accepted] low; the result is the same for
    every state and request, so neither the acceptance nor the movement and
    door logic has a part in it. *)
Theorem reset_dominates (s : ctrl) (r : request_t) :
  elevator_controller s r true = (initial, mk_ports 1 STATE_IDLE DIR_IDLE false)
  /\ elevator_floor (next s r true) = 1
  /\ elevator_state (next s r true) = STATE_IDLE
  /\ elevator_direction (next s r true) = DIR_IDLE
  /\ has_target (next s r true) = false
  /\ request_accepted (outputs s r true) = false
  /\ forall s' r', elevator_controller s' r' true = elevator_controller s r true.
Proof. repeat split. Qed.

(** ** Claims about requests as the driver passes them *)

Lemma to_floor_range (z : Z) : 0 <= to_floor z <= 15.
Proof.
  unfold to_floor, ApInt.ap_uint. change (2 ^ 4) with 16.
  pose proof (Z.mod_pos_bound z 16). lia.
Qed.

(** C10.  The floor of a request is a 4-bit value: the integer the driver
    writes is reduced modulo 16, so it lies between 0 and 15 and the test
    [floor <= 15] of the acceptance path always succeeds.  For a valid request
    in the idle state with no target held, acceptance is therefore the same as
    the floor being neither 0 nor the car's floor. *)
Theorem request_floor_four_bit (z : Z) (s : ctrl) :
  has_target s = false -> elevator_state s = STATE_IDLE ->
  let r := make_request z true in
  floor r = z mod 16
  /\ 0 <= floor r <= 15
  /\ (floor r <=? 15) = true
  /\ (request_accepted (outputs s r false) = true <->
      floor r <> 0 /\ floor r <> elevator_floor s).
Proof.
  intros Hh Hst r. pose proof (to_floor_range z) as Hr.
  split; [reflexivity|]. split; [exact Hr|].
  split; [apply Z.leb_le; apply Hr|].
  rewrite outputs_accepted, accept_request_iff.
  change (floor r) with (to_floor z). intuition lia.
Qed.

Lemma request_floor_four_bit_witness :
  has_target initial = false /\ elevator_state initial = STATE_IDLE
  /\ floor (make_request 19 true) = 3
  /\ (request_accepted (outputs initial (make_request 19 true) false) = true <->
      floor (make_request 19 true) <> 0
      /\ floor (make_request 19 true) <> elevator_floor initial).
Proof.
  split; [reflexivity|]. split; [reflexivity|].
  destruct (request_floor_four_bit 19 initial eq_refl eq_refl)
    as (Hfloor & _ & _ & Hiff).
  split; [exact Hfloor | exact Hiff].
Defined.

(** ** Claims about a rejected request *)

(** C3, as the spec words it, fails on the way from floor 1 to floor 3: the
    state is reachable, a request for floor 5 is rejected, and the invocation
    still moves the car from floor 2 to floor 3 and opens the door. *)
Lemma rejected_request_car_still_moves :
  reachable on_the_way
  /\ request_accepted (outputs on_the_way request_5 false) = false
  /\ elevator_floor on_the_way = 2
  /\ elevator_state on_the_way = STATE_MOVING
  /\ elevator_floor (next on_the_way request_5 false) = 3
  /\ elevator_state (next on_the_way request_5 false) = STATE_DOOR_OPEN
  /\ next on_the_way request_5 false <> on_the_way.
Proof.
  split; [apply reach_next, reach_initial|].
  repeat split; try reflexivity. discriminate.
Qed.

(** C3, amended.  In a cycle without reset in which one of the acceptance
    conditions fails, [request_accepted] is low and the acceptance path leaves
    the statics as they were; the movement and door path of the same invocation
    still runs on them.  The invocation as a whole leaves the statics unchanged
    exactly when the car is neither moving with a target held nor in the
    door-open state, which for a reachable state means that it is idle. *)
Theorem rejected_request_only_moves (s : ctrl) (r : request_t) :
  ~ (valid r = true /\ has_target s = false /\ elevator_state s = STATE_IDLE
     /\ 1 <= floor r <= 15 /\ floor r <> elevator_floor s) ->
  request_accepted (outputs s r false) = false
  /\ fst (accept_request r s) = s
  /\ next s r false = move_elevator s
  /\ (next s r false = s <->
      ~ (has_target s = true /\ elevator_state s = STATE_MOVING)
      /\ elevator_state s <> STATE_DOOR_OPEN)
  /\ (reachable s -> (next s r false = s <-> elevator_state s = STATE_IDLE)).
Proof.
  intros Hfail.
  assert (Hrej : snd (accept_request r s) = false).
  { destruct (snd (accept_request r s)) eqn:E; [|reflexivity].
    apply accept_request_iff in E. contradiction. }
  assert (Hnext : next s r false = move_elevator s).
  { now rewrite next_phases, accept_request_rejected. }
  split; [now rewrite outputs_accepted|].
  split; [now apply accept_request_rejected|].
  split; [exact Hnext|]. rewrite Hnext.
  split; [apply move_elevator_fixed|].
  intros Hreach. rewrite move_elevator_fixed.
  destruct (reachable_consistent s Hreach) as (_ & Hst & Hth & _).
  unfold state_named, target_iff_moving in *.
  unfold STATE_IDLE, STATE_MOVING, STATE_DOOR_OPEN in *.
  split.
  - intros [Hmov Hdoor]. destruct Hst as [H|[H|H]]; [exact H| |contradiction].
    exfalso. apply Hmov. split; [now apply Hth | exact H].
  - intros H. rewrite H. split; [intros [_ ?]|]; discriminate.
Qed.

Lemma rejected_request_only_moves_witness :
  ~ (valid request_5 = true /\ has_target on_the_way = false
     /\ elevator_state on_the_way = STATE_IDLE
     /\ 1 <= floor request_5 <= 15 /\ floor request_5 <> elevator_floor on_the_way)
  /\ request_accepted (outputs on_the_way request_5 false) = false
  /\ fst (accept_request request_5 on_the_way) = on_the_way
  /\ next on_the_way request_5 false = move_elevator on_the_way.
Proof.
  assert (Hfail : ~ (valid request_5 = true /\ has_target on_the_way = false
     /\ elevator_state on_the_way = STATE_IDLE
     /\ 1 <= floor request_5 <= 15
     /\ floor request_5 <> elevator_floor on_the_way)).
  { intros (_ & H & _). discriminate H. }
  split; [exact Hfail|].
  destruct (rejected_request_only_moves on_the_way request_5 Hfail)
    as (Hacc & Hsame & Hnext & _).
  split; [exact Hacc|]. split; [exact Hsame | exact Hnext].
Defined.

(** ** Claims about an accepted request for an adjacent floor *)

(** C9.  When a request for a floor one above or one below the car is
    accepted, the same invocation moves the car there: the ports show the
    requested floor, the door-open state and the idle direction, and no target
    is held afterwards, so the moving state set on acceptance is not seen
    between invocations. *)
Theorem adjacent_request_arrives_at_once (s : ctrl) (r : request_t) (reset : bool) :
  request_accepted (outputs s r reset) = true ->
  Z.abs (floor r - elevator_floor s) = 1 ->
  current_floor (outputs s r reset) = floor r
  /\ current_state (outputs s r reset) = STATE_DOOR_OPEN
  /\ current_direction (outputs s r reset) = DIR_IDLE
  /\ current_state (outputs s r reset) <> STATE_MOVING
  /\ has_target (next s r reset) = false.
Proof.
  destruct reset; [discriminate|].
  intros Hacc Hadj.
  destruct (outputs_next s r false) as (-> & -> & ->).
  rewrite outputs_accepted in Hacc.
  rewrite next_phases, (accept_request_taken _ _ Hacc).
  apply accept_request_iff in Hacc. destruct Hacc as (_ & _ & _ & Hr & Hne).
  destruct s as [f st d t h], r as [rf rv].
  unfold_controller. repeat split_test; close_fields.
Qed.

Lemma adjacent_request_arrives_at_once_witness :
  request_accepted (outputs initial (make_request 2 true) false) = true
  /\ Z.abs (floor (make_request 2 true) - elevator_floor initial) = 1
  /\ current_floor (outputs initial (make_request 2 true) false) = 2
  /\ current_state (outputs initial (make_request 2 true) false) = STATE_DOOR_OPEN
  /\ current_direction (outputs initial (make_request 2 true) false) = DIR_IDLE.
Proof.
  split; [reflexivity|]. split; [reflexivity|].
  destruct (adjacent_request_arrives_at_once initial (make_request 2 true) false
              eq_refl eq_refl) as (Hf & Hs & Hd & _).
  split; [exact Hf|]. split; [exact Hs | exact Hd].
Defined.

(** ** The movement path while a target is held *)

Lemma next_holding_target (s : ctrl) (r : request_t) :
  has_target s = true -> next s r false = move_elevator s.
Proof.
  intros Hh. rewrite next_phases, accept_request_rejected; [reflexivity|].
  destruct (snd (accept_request r s)) eqn:E; [|reflexivity].
  apply accept_request_iff in E. destruct E as (_ & E & _). congruence.
Qed.

(** One unit toward the target, and the door opens on arrival. *)
Lemma move_toward_target (s : ctrl) :
  consistent s -> has_target s = true ->
  let s' := move_elevator s in
  (elevator_floor s < target_floor s -> elevator_floor s' = elevator_floor s + 1)
  /\ (elevator_floor s > target_floor s -> elevator_floor s' = elevator_floor s - 1)
  /\ target_floor s' = target_floor s
  /\ distance s' = distance s - 1
  /\ (has_target s' = true <-> elevator_floor s' <> target_floor s)
  /\ (elevator_state s' = STATE_DOOR_OPEN <-> elevator_floor s' = target_floor s).
Proof.
  destruct s as [f st d t h].
  unfold_controller. intros (Hf & Hst & Hth & Hta & Hd) ->.
  destruct Hta as [Ht Hne]; [reflexivity|].
  assert (Hmov : st = 1) by now apply Hth. subst st.
  cbn [andb]. repeat split_test; close_fields.
Qed.

Lemma run_last (s : ctrl) (rs : list request_t) (r : request_t) :
  run s (rs ++ [r]) = next (run s rs) r false.
Proof. unfold run. now rewrite fold_left_app. Qed.

Lemma consistent_run (rs : list request_t) (s : ctrl) :
  consistent s -> consistent (run s rs).
Proof.
  revert s. induction rs as [|r rs IH]; intros s Hs; [exact Hs|].
  apply IH. now apply consistent_next.
Qed.

(** As long as there are no more cycles than floors to go, every cycle brings
    the car one floor closer and the target stays held until the last one. *)
Lemma run_toward_target (s : ctrl) :
  consistent s -> has_target s = true ->
  forall rs, Z.of_nat (length rs) <= distance s ->
  target_floor (run s rs) = target_floor s
  /\ distance (run s rs) = distance s - Z.of_nat (length rs)
  /\ (has_target (run s rs) = true <-> Z.of_nat (length rs) < distance s).
Proof.
  intros Hs Hh. induction rs as [|r rs IH] using rev_ind; intros Hlen.
  - cbn. split; [reflexivity|]. split; [lia|].
    destruct Hs as (_ & _ & _ & Hta & _). destruct (Hta Hh) as [_ Hne].
    unfold distance. split; [lia | intros _; exact Hh].
  - rewrite length_app in Hlen. cbn [length] in Hlen.
    destruct IH as (Ht & Hd & Hheld); [lia|].
    assert (Hh' : has_target (run s rs) = true) by (apply Hheld; lia).
    rewrite run_last, (next_holding_target _ _ Hh').
    destruct (move_toward_target (run s rs) (consistent_run rs s Hs) Hh')
      as (_ & _ & Ht' & Hd' & Hheld' & _).
    rewrite length_app. cbn [length].
    split; [congruence|]. split; [lia|].
    rewrite Hheld', Ht. unfold distance in *. rewrite Ht', Ht in Hd'. lia.
Qed.

(** Without a target the second statement can only close the door. *)
Lemma move_without_target (s : ctrl) :
  consistent s -> has_target s = false ->
  elevator_state (move_elevator s) = STATE_IDLE
  /\ elevator_floor (move_elevator s) = elevator_floor s
  /\ has_target (move_elevator s) = false.
Proof.
  destruct s as [f st d t h].
  unfold_controller. intros (Hf & Hst & Hth & Hta & Hd) ->.
  cbn [andb]. repeat split_test; close_fields.
Qed.

(** Each of the two invariants of the data model is preserved on its own,
    from any state. *)
Lemma idle_unless_moving_next (s : ctrl) (r : request_t) (reset : bool) :
  idle_unless_moving s -> idle_unless_moving (next s r reset).
Proof.
  destruct s as [f st d t [|]], r as [rf [|]], reset.
  all: unfold_controller; intros Hd; repeat split_test; close_fields.
Qed.

Lemma target_iff_moving_next (s : ctrl) (r : request_t) (reset : bool) :
  target_iff_moving s -> target_iff_moving (next s r reset).
Proof.
  destruct s as [f st d t [|]], r as [rf [|]], reset.
  all: unfold_controller; intros Hth; repeat split_test; close_fields.
Qed.

(** ** Claims about reachable states *)

(** C4.  From a reachable state that holds a target, every cycle without
    reset moves the car by exactly one floor, up when it is below the target
    and down when it is above, so the distance to the target drops by one; the
    target stays the same and stays held until the distance is 0, which
    happens after as many cycles as there were floors to go. *)
Theorem monotonic_approach (s : ctrl) :
  reachable s -> has_target s = true ->
  elevator_floor s <> target_floor s
  /\ (forall r, let s' := next s r false in
        (elevator_floor s < target_floor s ->
         elevator_floor s' = elevator_floor s + 1)
        /\ (elevator_floor s > target_floor s ->
            elevator_floor s' = elevator_floor s - 1)
        /\ target_floor s' = target_floor s
        /\ distance s' = distance s - 1
        /\ (has_target s' = true <-> elevator_floor s' <> target_floor s))
  /\ (forall rs, Z.of_nat (length rs) <= distance s ->
        target_floor (run s rs) = target_floor s
        /\ distance (run s rs) = distance s - Z.of_nat (length rs)
        /\ (has_target (run s rs) = true <-> Z.of_nat (length rs) < distance s))
  /\ (forall rs, Z.of_nat (length rs) = distance s ->
        elevator_floor (run s rs) = target_floor s).
Proof.
  intros Hreach Hh. pose proof (reachable_consistent s Hreach) as Hs.
  split.
  { destruct Hs as (_ & _ & _ & Hta & _). destruct (Hta Hh) as [_ Hne].
    congruence. }
  split.
  { intros r s'. subst s'. rewrite (next_holding_target _ _ Hh).
    destruct (move_toward_target s Hs Hh) as (Hup & Hdown & Ht & Hd & Hheld & _).
    repeat split; try assumption; apply Hheld. }
  split; [apply (run_toward_target s Hs Hh)|].
  intros rs Hlen.
  destruct (run_toward_target s Hs Hh rs) as (Ht & Hd & _); [lia|].
  unfold distance in *. rewrite Ht in Hd. lia.
Qed.

Lemma monotonic_approach_witness :
  reachable on_the_way /\ has_target on_the_way = true
  /\ elevator_floor on_the_way = 2 /\ target_floor on_the_way = 3
  /\ elevator_floor (next on_the_way request_5 false) = elevator_floor on_the_way + 1
  /\ elevator_floor (run on_the_way [no_request]) = target_floor on_the_way.
Proof.
  assert (Hreach : reachable on_the_way) by apply reach_next, reach_initial.
  split; [exact Hreach|]. split; [reflexivity|].
  split; [reflexivity|]. split; [reflexivity|].
  destruct (monotonic_approach on_the_way Hreach eq_refl)
    as (_ & Hstep & _ & Harrive).
  destruct (Hstep request_5) as (Hup & _).
  split; [apply Hup; reflexivity | apply Harrive; reflexivity].
Defined.

(** C5.  From a reachable state, a cycle without reset ends in the door-open
    state exactly when the car reaches the target held in that cycle; the
    state before was not door-open, and the next invocation, whatever its
    inputs, takes no request and returns to idle, so exactly one cycle is spent
    with the door open and no moving state comes in between. *)
Theorem single_dwell_cycle (s : ctrl) (r : request_t) :
  reachable s ->
  let s1 := fst (accept_request r s) in
  let s' := next s r false in
  (has_target s1 = true /\ elevator_floor s' = target_floor s1 <->
   elevator_state s' = STATE_DOOR_OPEN)
  /\ (elevator_state s' = STATE_DOOR_OPEN ->
      elevator_state s <> STATE_DOOR_OPEN
      /\ forall r2 reset2,
           elevator_state (next s' r2 reset2) = STATE_IDLE
           /\ request_accepted (outputs s' r2 reset2) = false).
Proof.
  intros Hreach s1 s'.
  pose proof (reachable_consistent s Hreach) as Hs.
  pose proof (consistent_accept r s Hs) as Hs1. fold s1 in Hs1.
  assert (Hs' : consistent s') by now apply consistent_next.
  assert (Hnext : s' = move_elevator s1) by apply next_phases.
  assert (Hclose : forall q, consistent q -> elevator_state q = STATE_DOOR_OPEN ->
            forall r2 reset2, elevator_state (next q r2 reset2) = STATE_IDLE
                              /\ request_accepted (outputs q r2 reset2) = false).
  { intros q Hq Hdoor r2 [|]; [split; reflexivity|].
    assert (Hh : has_target q = false).
    { destruct Hq as (_ & _ & Hth & _).
      destruct (has_target q) eqn:E; [|reflexivity].
      apply Hth in E. rewrite E in Hdoor. discriminate. }
    assert (Hrej : snd (accept_request r2 q) = false).
    { destruct (snd (accept_request r2 q)) eqn:E; [|reflexivity].
      apply accept_request_iff in E. destruct E as (_ & _ & E & _).
      rewrite E in Hdoor. discriminate. }
    rewrite outputs_accepted, next_phases, accept_request_rejected by exact Hrej.
    split; [apply (move_without_target q Hq Hh) | exact Hrej]. }
  assert (Hiff : has_target s1 = true /\ elevator_floor s' = target_floor s1 <->
                 elevator_state s' = STATE_DOOR_OPEN).
  { rewrite Hnext. destruct (has_target s1) eqn:Hh.
    - destruct (move_toward_target s1 Hs1 Hh) as (_ & _ & _ & _ & _ & Hdoor).
      cbv zeta in Hdoor. rewrite Hdoor. tauto.
    - destruct (move_without_target s1 Hs1 Hh) as (Hidle & _).
      rewrite Hidle. split; [intros [? _]|]; discriminate. }
  split; [exact Hiff|].
  intros Hdoor. split; [|now apply Hclose].
  intros Hwas. destruct (Hclose s Hs Hwas r false) as [Hidle _].
  fold s' in Hidle. rewrite Hidle in Hdoor. discriminate.
Qed.

Lemma single_dwell_cycle_witness :
  reachable on_the_way
  /\ elevator_state (next on_the_way no_request false) = STATE_DOOR_OPEN
  /\ elevator_state (next (next on_the_way no_request false) request_5 false)
     = STATE_IDLE
  /\ request_accepted (outputs (next on_the_way no_request false) request_5 false)
     = false.
Proof.
  assert (Hreach : reachable on_the_way) by apply reach_next, reach_initial.
  split; [exact Hreach|].
  destruct (single_dwell_cycle on_the_way no_request Hreach) as (Hiff & Hdwell).
  assert (Hdoor : elevator_state (next on_the_way no_request false) = STATE_DOOR_OPEN).
  { apply Hiff. split; reflexivity. }
  split; [exact Hdoor|].
  destruct (Hdwell Hdoor) as (_ & Hclose). exact (Hclose request_5 false).
Defined.

(** C6.  The direction is idle whenever the state is not moving: this holds
    of the initial state, every invocation (with or without reset, from any
    state in which it holds) preserves it, so it holds of every reachable
    state and of the ports after every invocation from one. *)
Theorem direction_idle_unless_moving :
  idle_unless_moving initial
  /\ (forall s r reset, idle_unless_moving s -> idle_unless_moving (next s r reset))
  /\ (forall s, reachable s ->
        elevator_state s <> STATE_MOVING -> elevator_direction s = DIR_IDLE)
  /\ (forall s r reset, reachable s ->
        current_state (outputs s r reset) <> STATE_MOVING ->
        current_direction (outputs s r reset) = DIR_IDLE).
Proof.
  assert (Hinit : idle_unless_moving initial) by (intros _; reflexivity).
  assert (Hreach : forall s, reachable s -> idle_unless_moving s).
  { induction 1 as [|s r reset _ IH]; [exact Hinit|].
    now apply idle_unless_moving_next. }
  split; [exact Hinit|]. split; [exact idle_unless_moving_next|].
  split; [exact Hreach|].
  intros s r reset Hs. destruct (outputs_next s r reset) as (_ & -> & ->).
  apply Hreach. now apply reach_next.
Qed.

Lemma direction_idle_unless_moving_witness :
  reachable (next on_the_way no_request false)
  /\ elevator_state (next on_the_way no_request false) <> STATE_MOVING
  /\ elevator_direction (next on_the_way no_request false) = DIR_IDLE.
Proof.
  assert (Hreach : reachable (next on_the_way no_request false))
    by apply reach_next, reach_next, reach_initial.
  assert (Hst : elevator_state (next on_the_way no_request false) <> STATE_MOVING)
    by discriminate.
  split; [exact Hreach|]. split; [exact Hst|].
  destruct direction_idle_unless_moving as (_ & _ & Hdir & _).
  exact (Hdir _ Hreach Hst).
Defined.

(** C7.  In every reachable state a target is held exactly when the state is
    moving, and in a cycle without reset the target held in that cycle is
    cleared exactly when the car's floor reaches it. *)
Theorem target_held_iff_moving (s : ctrl) :
  reachable s ->
  (has_target s = true <-> elevator_state s = STATE_MOVING)
  /\ forall r,
       let s1 := fst (accept_request r s) in
       let s' := next s r false in
       has_target s1 = true ->
       (elevator_floor s' = target_floor s1 <-> has_target s' = false).
Proof.
  intros Hreach. pose proof (reachable_consistent s Hreach) as Hs.
  split; [apply Hs|].
  intros r s1 s' Hh. subst s'. rewrite next_phases. fold s1.
  destruct (move_toward_target s1 (consistent_accept r s Hs) Hh)
    as (_ & _ & _ & _ & Hheld & _).
  cbv zeta in Hheld. destruct (has_target (move_elevator s1)).
  - split; [intros Heq|discriminate]. now apply Hheld in Heq.
  - split; [reflexivity|intros _].
    destruct (Z.eq_dec (elevator_floor (move_elevator s1)) (target_floor s1))
      as [Heq|Hne]; [exact Heq|].
    apply Hheld in Hne. discriminate.
Qed.

Lemma target_held_iff_moving_witness :
  reachable on_the_way
  /\ (has_target on_the_way = true <-> elevator_state on_the_way = STATE_MOVING)
  /\ has_target (next on_the_way no_request false) = false.
Proof.
  assert (Hreach : reachable on_the_way) by apply reach_next, reach_initial.
  split; [exact Hreach|].
  destruct (target_held_iff_moving on_the_way Hreach) as (Hiff & Hclear).
  split; [exact Hiff|].
  apply (Hclear no_request); reflexivity.
Defined.

(** C8.  In every reachable state the car's floor lies between 1 and 15, so
    floor 0 is never reached, and the floor port shows such a floor after
    every invocation. *)
Theorem floor_always_in_range (s : ctrl) :
  reachable s ->
  1 <= elevator_floor s <= 15
  /\ elevator_floor s <> 0
  /\ forall r reset, 1 <= current_floor (outputs s r reset) <= 15.
Proof.
  intros Hreach.
  assert (Hrange : forall q, reachable q -> 1 <= elevator_floor q <= 15).
  { intros q Hq. apply (reachable_consistent q Hq). }
  pose proof (Hrange s Hreach) as Hs.
  split; [exact Hs|]. split; [lia|].
  intros r reset. destruct (outputs_next s r reset) as (-> & _).
  apply Hrange. now apply reach_next.
Qed.

Lemma floor_always_in_range_witness :
  reachable on_the_way /\ 1 <= elevator_floor on_the_way <= 15.
Proof.
  assert (Hreach : reachable on_the_way) by apply reach_next, reach_initial.
  split; [exact Hreach|].
  exact (proj1 (floor_always_in_range on_the_way Hreach)).
Defined.

(** ** The direction while moving *)

Lemma heading_accept (r : request_t) (s : ctrl) :
  consistent s -> heading s -> heading (fst (accept_request r s)).
Proof.
  destruct s as [f st d t [|]], r as [rf [|]].
  all: unfold heading; unfold_controller; intros (Hf & Hst & Hth & Hta & Hd) Hh.
  all: repeat split_test; intros; try lia; try tauto.
Qed.

Lemma heading_move (s : ctrl) :
  consistent s -> heading s -> heading (move_elevator s).
Proof.
  destruct s as [f st d t [|]].
  all: unfold heading; unfold_controller; intros (Hf & Hst & Hth & Hta & Hd) Hh.
  all: repeat split_test; intros; try lia; try tauto.
  all: Z.div_mod_to_equations; lia.
Qed.

Lemma reachable_heading (s : ctrl) : reachable s -> heading s.
Proof.
  induction 1 as [|s r [|] Hs IH].
  - intros H. discriminate H.
  - intros H. discriminate H.
  - pose proof (reachable_consistent s Hs) as Hc.
    rewrite next_phases. apply heading_move.
    + now apply consistent_accept.
    + now apply heading_accept.
Qed.

(** X1.  Between invocations, while the state is moving, the direction is
    never idle: it is up exactly when the car is below the target and down
    exactly when it is above. *)
Theorem direction_points_to_target (s : ctrl) :
  reachable s -> elevator_state s = STATE_MOVING ->
  (elevator_direction s = DIR_UP <-> elevator_floor s < target_floor s)
  /\ (elevator_direction s = DIR_DOWN <-> elevator_floor s > target_floor s)
  /\ elevator_direction s <> DIR_IDLE.
Proof.
  intros Hs Hmov. destruct (reachable_heading s Hs Hmov) as [[Hd Hlt]|[Hd Hgt]].
  all: rewrite Hd; unfold DIR_UP, DIR_DOWN, DIR_IDLE.
  all: repeat split; intros; try lia; try discriminate.
Qed.

Lemma direction_points_to_target_witness :
  reachable on_the_way /\ elevator_state on_the_way = STATE_MOVING
  /\ (elevator_direction on_the_way = DIR_UP <->
      elevator_floor on_the_way < target_floor on_the_way).
Proof.
  assert (Hreach : reachable on_the_way) by apply reach_next, reach_initial.
  split; [exact Hreach|]. split; [reflexivity|].
  exact (proj1 (direction_points_to_target on_the_way Hreach eq_refl)).
Defined.

(** ** Values stay within their bit widths *)

Lemma target_floor_next (s : ctrl) (r : request_t) (reset : bool) :
  0 <= target_floor s <= 15 -> 0 <= target_floor (next s r reset) <= 15.
Proof.
  destruct s as [f st d t [|]], r as [rf [|]], reset.
  all: unfold_controller; intros Ht; repeat split_test; lia.
Qed.

Lemma reachable_target_floor (s : ctrl) :
  reachable s -> 0 <= target_floor s <= 15.
Proof.
  induction 1 as [|s r reset _ IH]; [cbn; lia|].
  now apply target_floor_next.
Qed.

(** The floor is untouched by the acceptance path, and a target is held after
    it exactly when one was held before or the request was taken. *)
Lemma accept_request_floor (r : request_t) (s : ctrl) :
  elevator_floor (fst (accept_request r s)) = elevator_floor s
  /\ (has_target (fst (accept_request r s)) = true <->
      has_target s = true \/ snd (accept_request r s) = true).
Proof.
  destruct (snd (accept_request r s)) eqn:E.
  - rewrite (accept_request_taken _ _ E). cbn. tauto.
  - rewrite (accept_request_rejected _ _ E).
    split; [reflexivity|]. split; [tauto|]. intros [H|H]; [exact H|discriminate].
Qed.

(** X2.  No value ever leaves the width of its type: in every reachable state
    the two floors fit 4 bits, the state is one of the three encodings in use
    (never 3) and the direction one of the three in use (never -2); and in
    every invocation the increment or decrement of the floor, when the
    movement path performs it, does not wrap around. *)
Theorem values_fit_types (s : ctrl) :
  reachable s ->
  to_floor (elevator_floor s) = elevator_floor s
  /\ to_floor (target_floor s) = target_floor s
  /\ to_state (elevator_state s) = elevator_state s
  /\ elevator_state s <> 3
  /\ to_direction (elevator_direction s) = elevator_direction s
  /\ elevator_direction s <> -2
  /\ forall r,
       let s1 := fst (accept_request r s) in
       has_target s1 = true ->
       (elevator_floor s1 < target_floor s1 ->
        to_floor (elevator_floor s1 + 1) = elevator_floor s1 + 1)
       /\ (elevator_floor s1 > target_floor s1 ->
           to_floor (elevator_floor s1 - 1) = elevator_floor s1 - 1).
Proof.
  intros Hreach.
  pose proof (reachable_consistent s Hreach) as Hs.
  pose proof (reachable_target_floor s Hreach) as Ht.
  pose proof (reachable_heading s Hreach) as Hh.
  assert (Hdir : elevator_direction s = DIR_DOWN \/ elevator_direction s = DIR_IDLE
                 \/ elevator_direction s = DIR_UP).
  { destruct Hs as (_ & _ & _ & _ & Hidle).
    destruct (Z.eq_dec (elevator_state s) STATE_MOVING) as [Hm|Hm].
    - destruct (Hh Hm) as [[? _]|[? _]]; tauto.
    - right; left. now apply Hidle. }
  destruct Hs as (Hf & Hst & Hs').
  unfold to_floor, to_state, to_direction, ApInt.ap_uint, ApInt.ap_int.
  unfold floor_in_range, state_named, STATE_IDLE, STATE_MOVING, STATE_DOOR_OPEN,
    DIR_DOWN, DIR_IDLE, DIR_UP in *.
  change (2 ^ 4) with 16. change (2 ^ 2) with 4. change (2 ^ (2 - 1)) with 2.
  split; [apply Z.mod_small; lia|]. split; [apply Z.mod_small; lia|].
  split; [apply Z.mod_small; lia|]. split; [lia|].
  split; [destruct Hdir as [ -> | [ -> | -> ] ]; reflexivity|]. split; [lia|].
  intros r Hheld.
  destruct (consistent_accept r s (conj Hf (conj Hst Hs')))
    as (Hf1 & _ & _ & Hta1 & _).
  destruct (Hta1 Hheld) as [Ht1 _].
  unfold floor_in_range in Hf1.
  split; intros Hlt; apply Z.mod_small; lia.
Qed.

Lemma values_fit_types_witness :
  reachable on_the_way
  /\ to_floor (elevator_floor on_the_way) = elevator_floor on_the_way
  /\ to_direction (elevator_direction on_the_way) = elevator_direction on_the_way.
Proof.
  assert (Hreach : reachable on_the_way) by apply reach_next, reach_initial.
  split; [exact Hreach|].
  destruct (values_fit_types on_the_way Hreach) as (Hf & _ & _ & _ & Hd & _).
  split; [exact Hf | exact Hd].
Defined.

(** ** How far the car moves in one cycle *)

(** X3.  From a reachable state an invocation without reset never moves the
    car by more than one floor, and it moves the car exactly when a target was
    held before the call or the request of the call is accepted. *)
Theorem floor_moves_one_at_most (s : ctrl) (r : request_t) :
  reachable s ->
  Z.abs (elevator_floor (next s r false) - elevator_floor s) <= 1
  /\ (elevator_floor (next s r false) <> elevator_floor s <->
      has_target s = true \/ request_accepted (outputs s r false) = true).
Proof.
  intros Hreach. pose proof (reachable_consistent s Hreach) as Hs.
  pose proof (consistent_accept r s Hs) as Hs1.
  destruct (accept_request_floor r s) as (Hfloor & Hheld).
  rewrite outputs_accepted, next_phases, <- Hheld, <- Hfloor.
  destruct (has_target (fst (accept_request r s))) eqn:Hh.
  - destruct (move_toward_target _ Hs1 Hh) as (Hup & Hdown & _).
    destruct Hs1 as (_ & _ & _ & Hta & _). destruct (Hta Hh) as [_ Hne].
    cbv zeta in Hup, Hdown.
    destruct (Z.lt_total (elevator_floor (fst (accept_request r s)))
                (target_floor (fst (accept_request r s)))) as [Hlt|[Heq|Hgt]].
    + rewrite (Hup Hlt). split; [lia|]. split; [reflexivity|lia].
    + congruence.
    + rewrite (Hdown (Z.lt_gt _ _ Hgt)). split; [lia|]. split; [reflexivity|lia].
  - destruct (move_without_target _ Hs1 Hh) as (_ & Hsame & _).
    rewrite Hsame. split; [lia|]. split; [lia|discriminate].
Qed.

Lemma floor_moves_one_at_most_witness :
  reachable on_the_way
  /\ Z.abs (elevator_floor (next on_the_way request_5 false)
            - elevator_floor on_the_way) <= 1.
Proof.
  assert (Hreach : reachable on_the_way) by apply reach_next, reach_initial.
  split; [exact Hreach|].
  exact (proj1 (floor_moves_one_at_most on_the_way request_5 Hreach)).
Defined.

(** ** From an accepted request to the open door *)

(** A call made with the door open takes no request and closes the door. *)
Lemma door_closes (s : ctrl) (r : request_t) :
  consistent s -> elevator_state s = STATE_DOOR_OPEN ->
  elevator_state (next s r false) = STATE_IDLE
  /\ elevator_floor (next s r false) = elevator_floor s
  /\ has_target (next s r false) = false
  /\ request_accepted (outputs s r false) = false.
Proof.
  intros Hs Hdoor.
  assert (Hh : has_target s = false).
  { destruct Hs as (_ & _ & Hth & _).
    destruct (has_target s) eqn:E; [|reflexivity].
    apply Hth in E. rewrite E in Hdoor. discriminate. }
  assert (Hrej : snd (accept_request r s) = false).
  { destruct (snd (accept_request r s)) eqn:E; [|reflexivity].
    apply accept_request_iff in E. destruct E as (_ & _ & E & _).
    rewrite E in Hdoor. discriminate. }
  rewrite outputs_accepted, next_phases, accept_request_rejected by exact Hrej.
  destruct (move_without_target s Hs Hh) as (Hidle & Hfloor & Hheld).
  repeat split; assumption.
Qed.

(** The cycle that brings the distance to 0 opens the door. *)
Lemma run_arrival (s : ctrl) (rs : list request_t) :
  consistent s -> has_target s = true ->
  Z.of_nat (length rs) = distance s ->
  elevator_state (run s rs) = STATE_DOOR_OPEN
  /\ elevator_floor (run s rs) = target_floor s
  /\ has_target (run s rs) = false
  /\ elevator_direction (run s rs) = DIR_IDLE.
Proof.
  intros Hs Hh. destruct rs as [|q rs _] using rev_ind; intros Hlen.
  - destruct Hs as (_ & _ & _ & Hta & _). destruct (Hta Hh) as [_ Hne].
    unfold distance in Hlen. cbn in Hlen. lia.
  - rewrite length_app in Hlen. cbn [length] in Hlen.
    destruct (run_toward_target s Hs Hh rs) as (Ht & Hd & Hheld); [lia|].
    assert (Hh' : has_target (run s rs) = true) by (apply Hheld; lia).
    pose proof (consistent_run rs s Hs) as Hs'.
    assert (Hlast : consistent (run s (rs ++ [q]))) by now apply consistent_run.
    rewrite run_last, (next_holding_target _ _ Hh') in *.
    destruct (move_toward_target (run s rs) Hs' Hh')
      as (_ & _ & Ht' & Hd' & Hheld' & Hdoor).
    cbv zeta in *.
    assert (Hat : elevator_floor (move_elevator (run s rs)) = target_floor (run s rs)).
    { unfold distance in Hd', Hd, Hlen. rewrite Ht' in Hd'. lia. }
    assert (Hopen : elevator_state (move_elevator (run s rs)) = STATE_DOOR_OPEN)
      by now apply Hdoor.
    split; [exact Hopen|]. split; [congruence|]. split.
    + destruct (has_target (move_elevator (run s rs))); [|reflexivity].
      exfalso. now apply (proj1 Hheld').
    + destruct Hlast as (_ & _ & _ & _ & Hidle). apply Hidle.
      rewrite Hopen. discriminate.
Qed.

(** X4.  When a request is accepted in a reachable state, the car is at the
    requested floor with the door open after exactly as many invocations as
    there are floors between the two, the accepting one included, whatever is
    requested in the meantime; until then the state is moving toward that
    floor, and one invocation later the controller is idle at that floor. *)
Theorem accepted_request_is_served (s : ctrl) (r : request_t) (rs : list request_t) :
  reachable s -> request_accepted (outputs s r false) = true ->
  let d := Z.abs (floor r - elevator_floor s) in
  let s' := run s (r :: rs) in
  (Z.of_nat (length (r :: rs)) < d ->
   elevator_state s' = STATE_MOVING /\ target_floor s' = floor r
   /\ distance s' = d - Z.of_nat (length (r :: rs)))
  /\ (Z.of_nat (length (r :: rs)) = d ->
      elevator_floor s' = floor r /\ elevator_state s' = STATE_DOOR_OPEN
      /\ elevator_direction s' = DIR_IDLE
      /\ forall q, elevator_state (next s' q false) = STATE_IDLE
                   /\ elevator_floor (next s' q false) = floor r
                   /\ request_accepted (outputs s' q false) = false).
Proof.
  intros Hreach Hacc d s'. rewrite outputs_accepted in Hacc.
  pose proof (reachable_consistent s Hreach) as Hs.
  pose proof (consistent_accept r s Hs) as Hs1.
  set (s1 := fst (accept_request r s)) in *.
  assert (Hh1 : has_target s1 = true /\ target_floor s1 = floor r
                /\ elevator_floor s1 = elevator_floor s).
  { unfold s1. rewrite (accept_request_taken _ _ Hacc). repeat split. }
  destruct Hh1 as (Hh1 & Ht1 & Hf1).
  assert (Hd1 : distance s1 = d).
  { unfold distance, d. rewrite Ht1, Hf1. lia. }
  assert (Hrun : s' = run s1 (r :: rs)).
  { unfold s', run. cbn [fold_left].
    now rewrite next_phases, (next_holding_target s1 r Hh1). }
  rewrite Hrun. split.
  - intros Hlen.
    destruct (run_toward_target s1 Hs1 Hh1 (r :: rs)) as (Ht & Hd & Hheld); [lia|].
    pose proof (consistent_run (r :: rs) s1 Hs1) as (_ & _ & Hth & _).
    split; [apply Hth, Hheld; lia|]. split; [congruence|lia].
  - intros Hlen.
    destruct (run_arrival s1 (r :: rs) Hs1 Hh1) as (Hopen & Hat & _ & Hdir); [lia|].
    split; [congruence|]. split; [exact Hopen|]. split; [exact Hdir|].
    intros q.
    destruct (door_closes _ q (consistent_run (r :: rs) s1 Hs1) Hopen)
      as (Hidle & Hfloor & _ & Hrej).
    split; [exact Hidle|]. split; [congruence | exact Hrej].
Qed.

Lemma accepted_request_is_served_witness :
  reachable initial
  /\ request_accepted (outputs initial request_3 false) = true
  /\ elevator_floor (run initial [request_3; request_5]) = 3
  /\ elevator_state (run initial [request_3; request_5]) = STATE_DOOR_OPEN.
Proof.
  split; [apply reach_initial|]. split; [reflexivity|].
  destruct (accepted_request_is_served initial request_3 [request_5]
              reach_initial eq_refl) as (_ & Harrive).
  destruct (Harrive eq_refl) as (Hfloor & Hopen & _).
  split; [exact Hfloor | exact Hopen].
Defined.

(** ** The busy period *)

(** Outside the idle state the request of a call plays no part. *)
Lemma next_busy (s : ctrl) (r : request_t) :
  elevator_state s <> STATE_IDLE ->
  next s r false = move_elevator s /\ request_accepted (outputs s r false) = false.
Proof.
  intros Hbusy.
  assert (Hrej : snd (accept_request r s) = false).
  { destruct (snd (accept_request r s)) eqn:E; [|reflexivity].
    apply accept_request_iff in E. tauto. }
  now rewrite outputs_accepted, next_phases, accept_request_rejected.
Qed.

Lemma cycles_to_idle_range (s : ctrl) :
  consistent s ->
  0 <= cycles_to_idle s <= 15
  /\ (cycles_to_idle s = 0 <-> elevator_state s = STATE_IDLE).
Proof.
  destruct s as [f st d t [|]].
  all: unfold cycles_to_idle; unfold_controller.
  all: intros (Hf & Hst & Hth & Hta & Hd); repeat split_test; close_fields.
Qed.

Lemma cycles_to_idle_next (s : ctrl) (r : request_t) :
  consistent s -> elevator_state s <> STATE_IDLE ->
  cycles_to_idle (next s r false) = cycles_to_idle s - 1.
Proof.
  intros Hs Hbusy. rewrite (proj1 (next_busy s r Hbusy)).
  pose proof (consistent_move s Hs) as Hs'.
  destruct Hs as (Hf & Hst & Hth & Hta & Hd).
  destruct Hst as [Hst|[Hst|Hst]]; [contradiction| |].
  - assert (Hh : has_target s = true) by now apply Hth.
    destruct (move_toward_target s (conj Hf (conj (or_intror (or_introl Hst))
                (conj Hth (conj Hta Hd)))) Hh) as (_ & _ & Ht' & Hd' & Hheld & Hdoor).
    cbv zeta in *. destruct (Hta Hh) as [_ Hne].
    destruct Hs' as (_ & _ & Hth' & _).
    unfold cycles_to_idle. rewrite Hst. cbn [Z.eqb Pos.eqb].
    destruct (Z.eq_dec (elevator_floor (move_elevator s)) (target_floor s))
      as [Heq|Hneq].
    + rewrite (proj2 Hdoor Heq). cbn. unfold distance in *. rewrite Ht' in Hd'. lia.
    + apply Hheld, Hth' in Hneq. rewrite Hneq. cbn. lia.
  - assert (Hh : has_target s = false).
    { destruct (has_target s) eqn:E; [|reflexivity].
      apply Hth in E. rewrite E in Hst. discriminate. }
    destruct (move_without_target s (conj Hf (conj (or_intror (or_intror Hst))
                (conj Hth (conj Hta Hd)))) Hh) as (Hidle & _).
    unfold cycles_to_idle. now rewrite Hidle, Hst.
Qed.

Lemma busy_run (n : nat) :
  forall s, consistent s -> cycles_to_idle s = Z.of_nat n ->
  (forall rs, length rs = n ->
     elevator_state (run s rs) = STATE_IDLE /\ has_target (run s rs) = false)
  /\ (forall rs r, (length rs < n)%nat ->
        elevator_state (run s rs) <> STATE_IDLE
        /\ request_accepted (outputs (run s rs) r false) = false)
  /\ (forall rs rs', length rs = length rs' -> (length rs <= n)%nat ->
        run s rs = run s rs').
Proof.
  induction n as [|n IH]; intros s Hs Hn.
  - assert (Hidle : elevator_state s = STATE_IDLE)
      by now apply (cycles_to_idle_range s Hs).
    split; [|split].
    + intros [|? ?] Hlen; [|discriminate]. change (run s []) with s.
      split; [exact Hidle|]. destruct Hs as (_ & _ & Hth & _).
      destruct (has_target s) eqn:E; [|reflexivity].
      apply Hth in E. rewrite E in Hidle. discriminate.
    + intros rs r Hlen. inversion Hlen.
    + intros [|? ?] [|? ?] Hlen Hle; try discriminate; [reflexivity|].
      cbn in Hle. lia.
  - assert (Hbusy : elevator_state s <> STATE_IDLE).
    { intros Hidle. apply (cycles_to_idle_range s Hs) in Hidle. lia. }
    assert (Hnext : forall q, consistent (next s q false)
                              /\ cycles_to_idle (next s q false) = Z.of_nat n).
    { intros q. split; [now apply consistent_next|].
      rewrite (cycles_to_idle_next s q Hs Hbusy). lia. }
    split; [|split].
    + intros [|q rs] Hlen; [discriminate|]. injection Hlen as Hlen.
      destruct (Hnext q) as [Hs' Hn']. now apply (IH _ Hs' Hn').
    + intros [|q rs] r Hlen.
      * split; [exact Hbusy | apply (next_busy s r Hbusy)].
      * destruct (Hnext q) as [Hs' Hn'].
        apply (IH _ Hs' Hn'). cbn in Hlen. lia.
    + intros [|q rs] [|q' rs'] Hlen Hle; try discriminate; [reflexivity|].
      injection Hlen as Hlen. cbn in Hle.
      destruct (Hnext q) as [Hs' Hn'].
      unfold run. cbn [fold_left].
      rewrite (proj1 (next_busy s q' Hbusy)), <- (proj1 (next_busy s q Hbusy)).
      apply (IH _ Hs' Hn'); [exact Hlen | lia].
Qed.

(** X5.  From every reachable state the controller is idle again, with no
    target, after at most 15 invocations without reset: as many as there are
    floors still to go plus one while moving, one while the door is open.
    Until then it is not idle and accepts no request. *)
Theorem idle_again_within_15 (s : ctrl) :
  reachable s ->
  0 <= cycles_to_idle s <= 15
  /\ (forall rs, Z.of_nat (length rs) = cycles_to_idle s ->
        elevator_state (run s rs) = STATE_IDLE /\ has_target (run s rs) = false)
  /\ (forall rs r, Z.of_nat (length rs) < cycles_to_idle s ->
        elevator_state (run s rs) <> STATE_IDLE
        /\ request_accepted (outputs (run s rs) r false) = false).
Proof.
  intros Hreach. pose proof (reachable_consistent s Hreach) as Hs.
  destruct (cycles_to_idle_range s Hs) as [Hrange _].
  destruct (busy_run (Z.to_nat (cycles_to_idle s)) s Hs) as (Hidle & Hbusy & _);
    [lia|].
  split; [exact Hrange|]. split.
  - intros rs Hlen. apply Hidle. lia.
  - intros rs r Hlen. apply Hbusy. lia.
Qed.

Lemma idle_again_within_15_witness :
  reachable on_the_way
  /\ cycles_to_idle on_the_way = 2
  /\ elevator_state (run on_the_way [request_5; request_5]) = STATE_IDLE.
Proof.
  assert (Hreach : reachable on_the_way) by apply reach_next, reach_initial.
  split; [exact Hreach|]. split; [reflexivity|].
  destruct (idle_again_within_15 on_the_way Hreach) as (_ & Hidle & _).
  exact (proj1 (Hidle [request_5; request_5] eq_refl)).
Defined.

(** X6.  Requests made during the busy period change nothing, not even
    together: from a reachable state, two sequences of requests of the same
    length, no longer than the busy period, lead to the same state. *)
Theorem busy_period_ignores_requests (s : ctrl) (rs rs' : list request_t) :
  reachable s -> length rs = length rs' ->
  Z.of_nat (length rs) <= cycles_to_idle s ->
  run s rs = run s rs'.
Proof.
  intros Hreach Hlen Hle. pose proof (reachable_consistent s Hreach) as Hs.
  destruct (cycles_to_idle_range s Hs) as [Hrange _].
  destruct (busy_run (Z.to_nat (cycles_to_idle s)) s Hs) as (_ & _ & Hsame);
    [lia|].
  apply Hsame; [exact Hlen | lia].
Qed.

Lemma busy_period_ignores_requests_witness :
  reachable on_the_way
  /\ Z.of_nat (length [request_5; request_3]) <= cycles_to_idle on_the_way
  /\ run on_the_way [request_5; request_3] = run on_the_way [no_request; no_request].
Proof.
  assert (Hreach : reachable on_the_way) by apply reach_next, reach_initial.
  assert (Hle : Z.of_nat (length [request_5; request_3]) <= cycles_to_idle on_the_way)
    by (apply Z.leb_le; reflexivity).
  split; [exact Hreach|]. split; [exact Hle|].
  exact (busy_period_ignores_requests on_the_way [request_5; request_3]
           [no_request; no_request] Hreach eq_refl Hle).
Defined.

(** ** The test bench *)

Lemma elevator_controller_pair (s : ctrl) (r : request_t) (reset : bool) :
  elevator_controller s r reset = (next s r reset, outputs s r reset).
Proof. unfold next, outputs. now destruct (elevator_controller s r reset). Qed.

Lemma await_floor_step (t : floor_t) (n : nat) (r : request_t) (s : ctrl) (o : ports) :
  await_floor t (S n) r false s o =
  if (elevator_floor (next s r false) =? t)
     && (elevator_state (next s r false) =? STATE_IDLE)
  then elevator_controller s r false
  else await_floor t n r false (next s r false) (outputs s r false).
Proof.
  cbn [await_floor]. rewrite elevator_controller_pair.
  now destruct (outputs_next s r false) as (-> & -> & _).
Qed.

Lemma run_repeat_S (s : ctrl) (r : request_t) (n : nat) :
  run s (repeat r (S n)) = run (next s r false) (repeat r n).
Proof. reflexivity. Qed.

(** With enough cycles the loop stops at the call that closes the door. *)
Lemma await_floor_moving (r : request_t) (k : nat) :
  forall s n o, consistent s -> has_target s = true ->
  distance s = Z.of_nat (S k) -> (S (S k) <= n)%nat ->
  await_floor (target_floor s) n r false s o =
  elevator_controller (run s (repeat r (S k))) r false.
Proof.
  induction k as [|k IH]; intros s n o Hs Hh Hd Hn.
  all: destruct n as [|n]; [lia|].
  all: rewrite await_floor_step.
  all: pose proof (consistent_next s r false Hs) as Hs'.
  all: rewrite run_repeat_S, (next_holding_target s r Hh) in *.
  all: destruct (move_toward_target s Hs Hh) as (_ & _ & Ht & Hd' & Hheld & Hdoor).
  all: cbv zeta in *.
  - assert (Hat : elevator_floor (move_elevator s) = target_floor s).
    { unfold distance in *. rewrite Ht in Hd'. lia. }
    pose proof (proj2 Hdoor Hat) as Hopen.
    rewrite Hopen, andb_false_r.
    destruct n as [|n]; [lia|]. rewrite await_floor_step.
    destruct (door_closes (move_elevator s) r Hs' Hopen) as (Hidle & Hfloor & _).
    rewrite Hidle, Hfloor, Hat, Z.eqb_refl. reflexivity.
  - assert (Hne : elevator_floor (move_elevator s) <> target_floor s).
    { unfold distance in *. rewrite Ht in Hd'. lia. }
    apply Z.eqb_neq in Hne as Hcond. rewrite Hcond, andb_false_l.
    rewrite <- Ht. apply IH; [exact Hs' | now apply Hheld | lia | lia].
Qed.

(** With too few cycles the loop runs out before the controller is idle. *)
Lemma await_floor_short (r : request_t) (n : nat) :
  forall s o, consistent s -> has_target s = true ->
  Z.of_nat n <= distance s ->
  fst (await_floor (target_floor s) n r false s o) = run s (repeat r n).
Proof.
  induction n as [|n IH]; intros s o Hs Hh Hn; [reflexivity|].
  rewrite await_floor_step, run_repeat_S.
  pose proof (consistent_next s r false Hs) as Hs'.
  rewrite (next_holding_target s r Hh) in *.
  destruct (move_toward_target s Hs Hh) as (_ & _ & Ht & Hd' & Hheld & Hdoor).
  cbv zeta in *.
  destruct (Z.eq_dec (elevator_floor (move_elevator s)) (target_floor s))
    as [Hat|Hne].
  - rewrite (proj2 Hdoor Hat), andb_false_r.
    assert (Hn0 : n = 0%nat) by (unfold distance in *; rewrite Ht in Hd'; lia).
    subst n. reflexivity.
  - apply Z.eqb_neq in Hne as Hcond. rewrite Hcond, andb_false_l.
    rewrite <- Ht. apply IH; [exact Hs' | now apply Hheld | lia].
Qed.

(** X7.  The wait loop of the movement test, started while the car is on its
    way to floor [t]: when its bound exceeds the number of floors to go, it is
    left by [break] after exactly that number of calls plus one, with the
    ports showing floor [t] and the idle state; when the bound is smaller, it
    runs all its cycles and ends with the controller not yet idle. *)
Theorem await_floor_leaves_when_idle (s : ctrl) (r : request_t) (n : nat) (o : ports) :
  reachable s -> has_target s = true ->
  let res := await_floor (target_floor s) n r false s o in
  (distance s < Z.of_nat n ->
   fst res = run s (repeat r (Z.to_nat (distance s + 1)))
   /\ current_floor (snd res) = target_floor s
   /\ current_state (snd res) = STATE_IDLE)
  /\ (Z.of_nat n <= distance s ->
      fst res = run s (repeat r n) /\ elevator_state (fst res) <> STATE_IDLE).
Proof.
  intros Hreach Hh res. pose proof (reachable_consistent s Hreach) as Hs.
  assert (Hpos : 0 < distance s).
  { destruct Hs as (_ & _ & _ & Hta & _). destruct (Hta Hh) as [_ Hne].
    unfold distance. lia. }
  assert (Hcycles : cycles_to_idle s = distance s + 1).
  { destruct Hs as (_ & _ & Hth & _). unfold cycles_to_idle.
    now rewrite (proj1 Hth Hh). }
  split.
  - intros Hn. subst res.
    rewrite (await_floor_moving r (Z.to_nat (distance s - 1)) s n o Hs Hh)
      by lia.
    rewrite elevator_controller_pair. cbn [fst snd].
    destruct (outputs_next (run s (repeat r (S (Z.to_nat (distance s - 1))))) r false)
      as (-> & -> & _).
    destruct (run_arrival s (repeat r (S (Z.to_nat (distance s - 1)))) Hs Hh)
      as (Hopen & Hat & _); [rewrite repeat_length; lia|].
    destruct (door_closes _ r (consistent_run (repeat r (S (Z.to_nat (distance s - 1))))
                                 s Hs) Hopen) as (Hidle & Hfloor & _).
    split; [|split; [congruence | exact Hidle]].
    replace (Z.to_nat (distance s + 1)) with (S (S (Z.to_nat (distance s - 1))))
      by lia.
    rewrite <- run_last. f_equal.
    change (repeat r (S (Z.to_nat (distance s - 1))) ++ [r])
      with (repeat r (S (Z.to_nat (distance s - 1))) ++ repeat r 1).
    now rewrite <- repeat_app, Nat.add_1_r.
  - intros Hn. subst res. rewrite (await_floor_short r n s o Hs Hh Hn).
    split; [reflexivity|].
    destruct (busy_run (Z.to_nat (cycles_to_idle s)) s Hs) as (_ & Hbusy & _);
      [lia|].
    apply (Hbusy (repeat r n) r). rewrite repeat_length. lia.
Qed.

Lemma await_floor_leaves_when_idle_witness :
  reachable on_the_way /\ has_target on_the_way = true
  /\ distance on_the_way < Z.of_nat 5
  /\ current_floor (snd (await_floor (target_floor on_the_way) 5 no_request false
                           on_the_way (update_ports on_the_way true))) = 3
  /\ current_state (snd (await_floor (target_floor on_the_way) 5 no_request false
                           on_the_way (update_ports on_the_way true))) = STATE_IDLE.
Proof.
  assert (Hreach : reachable on_the_way) by apply reach_next, reach_initial.
  split; [exact Hreach|]. split; [reflexivity|]. split; [reflexivity|].
  destruct (await_floor_leaves_when_idle on_the_way no_request 5
              (update_ports on_the_way true) Hreach eq_refl) as (Hlong & _).
  destruct (Hlong eq_refl) as (_ & Hfloor & Hidle).
  split; [exact Hfloor | exact Hidle].
Defined.

(** X8.  The test bench passes on this controller: whatever the port
    variables hold at the start, all five tests succeed and [main] returns 0. *)
Theorem tb_main_passes (o : ports) : tb_main o = (5, 5, 0).
Proof. reflexivity. Qed.

(** ** Where the car rests *)

Lemma target_floor_written (s : ctrl) (r : request_t) :
  target_floor (next s r true) = 0
  /\ target_floor (next s r false) =
     if request_accepted (outputs s r false) then floor r else target_floor s.
Proof.
  split; [reflexivity|].
  assert (Hmove : forall q, target_floor (move_elevator q) = target_floor q).
  { intros [f st d t [|]]; unfold_controller; repeat split_test; reflexivity. }
  rewrite outputs_accepted, next_phases, Hmove.
  destruct (snd (accept_request r s)) eqn:E.
  - now rewrite (accept_request_taken _ _ E).
  - now rewrite (accept_request_rejected _ _ E).
Qed.

Lemma rest_next (s : ctrl) (r : request_t) (reset : bool) :
  consistent s ->
  (elevator_state s <> STATE_MOVING ->
   elevator_floor s = target_floor s
   \/ (target_floor s = 0 /\ elevator_floor s = 1)) ->
  elevator_state (next s r reset) <> STATE_MOVING ->
  elevator_floor (next s r reset) = target_floor (next s r reset)
  \/ (target_floor (next s r reset) = 0 /\ elevator_floor (next s r reset) = 1).
Proof.
  destruct s as [f st d t [|]], r as [rf [|]], reset.
  all: unfold_controller; intros (Hf & Hst & Hth & Hta & Hd) Hrest.
  all: repeat split_test; intros; try lia; try tauto.
  all: Z.div_mod_to_equations; lia.
Qed.

(** X9.  [target_floor] is written only by a reset, with 0, and by an accepted
    request, with its floor; and whenever the controller is not moving, the
    car rests at the floor written last: at the floor of the last accepted
    request, or at floor 1 when none was accepted since the start or the last
    reset. *)
Theorem rests_at_last_target (s : ctrl) :
  reachable s ->
  (elevator_state s <> STATE_MOVING ->
   elevator_floor s = target_floor s
   \/ (target_floor s = 0 /\ elevator_floor s = 1))
  /\ forall r,
       target_floor (next s r true) = 0
       /\ target_floor (next s r false) =
          if request_accepted (outputs s r false) then floor r else target_floor s.
Proof.
  intros Hreach. split; [|intros r; apply target_floor_written].
  induction Hreach as [|s r reset Hs IH].
  - intros _. right. split; reflexivity.
  - apply rest_next; [now apply reachable_consistent | exact IH].
Qed.

Lemma rests_at_last_target_witness :
  reachable (run initial [request_3; no_request; no_request])
  /\ elevator_state (run initial [request_3; no_request; no_request]) <> STATE_MOVING
  /\ (elevator_floor (run initial [request_3; no_request; no_request])
      = target_floor (run initial [request_3; no_request; no_request])
      \/ (target_floor (run initial [request_3; no_request; no_request]) = 0
          /\ elevator_floor (run initial [request_3; no_request; no_request]) = 1)).
Proof.
  assert (Hreach : reachable (run initial [request_3; no_request; no_request]))
    by apply reach_next, reach_next, reach_next, reach_initial.
  assert (Hst : elevator_state (run initial [request_3; no_request; no_request])
                <> STATE_MOVING) by discriminate.
  split; [exact Hreach|]. split; [exact Hst|].
  exact (proj1 (rests_at_last_target _ Hreach) Hst).
Defined.
